(** * Document access guards (src/app/document_access.h)

    A shallow embedding of the scope-bound lock wrappers of Aseprite's
    [app] namespace: [DocumentAccess], [DocumentReader], [DocumentWriter]
    and [DocumentDestroyer], together with [LockedDocumentException].

    The header only wraps a [Document*]; the [Document] class itself lives in
    app/document.h.  Its five member functions used here are taken as an
    interface (the [Document] class below), the objects it points to live in
    a heap indexed by address, and every member call made through a pointer
    is recorded, in program order, in a log of calls.  Constructors that may
    throw, assertions and member calls are written in a small state and
    error monad over that world. *)

From Stdlib Require Import ZArith String Ascii List.
From stdpp Require Import gmap fin_maps.
Import ListNotations.

Module app.

(** ** The external collaborator *)

(** [Document::LockType], the first argument of [Document::lock]. *)
Inductive LockType : Type := ReadLock | WriteLock.

(** The member functions of [Document] that the header calls.  [lock] and
    [lockToWrite] report success as a [bool]; all of them may change the
    object they are called on. *)
Class Document (D : Type) : Type := {
  lock : LockType -> Z -> D -> bool * D;
  lockToWrite : Z -> D -> bool * D;
  unlockToRead : D -> D;
  unlock : D -> D;
  close : D -> D
}.

(** A [Document*] is [None] for [NULL] and [Some p] for the address [p]. *)
Definition addr : Type := positive.
Abbreviation NULL := (@None addr).

(** One entry of the call log: a member call made through a pointer, with
    its arguments and, for the two calls that return one, its result. *)
Inductive Call : Type :=
| CallLock (p : addr) (type : LockType) (timeout : Z) (result : bool)
| CallLockToWrite (p : addr) (timeout : Z) (result : bool)
| CallUnlockToRead (p : addr)
| CallUnlock (p : addr)
| CallClose (p : addr)
| CallDelete (p : addr).

(** ** Exceptions *)

Definition nl : string := String "010"%char EmptyString.

(** The exception classes of this header: there is exactly one. *)
Inductive Exception : Type := LockedDocumentException.

(** The message each exception hands to the [base::Exception] constructor. *)
Definition what (e : Exception) : string :=
  match e with
  | LockedDocumentException =>
      ("Cannot read or write the active document." ++ nl ++
       "It is locked by a background task." ++ nl ++
       "Try again later.")%string
  end.

(** ** The monad *)

(** How a piece of code ends: it returns, it throws, an [ASSERT] fails, or
    it goes through a pointer that points to no live [Document] (null, or
    already deleted), which C++ leaves undefined. *)
Inductive Outcome (A : Type) : Type :=
| Return (a : A)
| Throw (e : Exception)
| AssertFail
| Fault.

Arguments Return {A} a.
Arguments Throw {A} e.
Arguments AssertFail {A}.
Arguments Fault {A}.

Section World.

Context {D : Type} {Doc : Document D}.

(** The world: the live [Document] objects and the log of calls so far. *)
Record World : Type := mkWorld {
  heap : gmap addr D;
  calls : list Call
}.

Definition M (A : Type) : Type := World -> Outcome A * World.

Definition ret {A : Type} (a : A) : M A := fun w => (Return a, w).

Definition bind {A B : Type} (m : M A) (k : A -> M B) : M B :=
  fun w =>
    match m w with
    | (Return a, w') => k a w'
    | (Throw e, w') => (Throw e, w')
    | (AssertFail, w') => (AssertFail, w')
    | (Fault, w') => (Fault, w')
    end.

Definition throw {A : Type} (e : Exception) : M A := fun w => (Throw e, w).

Definition fault {A : Type} : M A := fun w => (Fault, w).

(** Modelled from the spec: the [ASSERT] macro, which comes from the base
    library and is not defined in this header.  An assertion that fails is
    fail-fast: the operation stops there and nothing can catch it. *)
Definition ASSERT (cond : bool) : M unit :=
  fun w => if cond then (Return tt, w) else (AssertFail, w).

(** [m_document != NULL], as a condition. *)
Definition not_null (document : option addr) : bool :=
  match document with
  | Some _ => true
  | None => false
  end.

(** *** Member calls through a [Document*]

    Each looks the object up, runs the member function on it, stores the
    object back and logs the call. *)

Definition call_lock (p : addr) (type : LockType) (timeout : Z) : M bool :=
  fun w =>
    match heap w !! p with
    | Some d =>
        let (result, d') := lock type timeout d in
        (Return result,
         {| heap := <[p := d']> (heap w);
            calls := calls w ++ [CallLock p type timeout result] |})
    | None => (Fault, w)
    end.

Definition call_lockToWrite (p : addr) (timeout : Z) : M bool :=
  fun w =>
    match heap w !! p with
    | Some d =>
        let (result, d') := lockToWrite timeout d in
        (Return result,
         {| heap := <[p := d']> (heap w);
            calls := calls w ++ [CallLockToWrite p timeout result] |})
    | None => (Fault, w)
    end.

Definition call_unlockToRead (p : addr) : M unit :=
  fun w =>
    match heap w !! p with
    | Some d =>
        (Return tt,
         {| heap := <[p := unlockToRead d]> (heap w);
            calls := calls w ++ [CallUnlockToRead p] |})
    | None => (Fault, w)
    end.

Definition call_unlock (p : addr) : M unit :=
  fun w =>
    match heap w !! p with
    | Some d =>
        (Return tt,
         {| heap := <[p := unlock d]> (heap w);
            calls := calls w ++ [CallUnlock p] |})
    | None => (Fault, w)
    end.

Definition call_close (p : addr) : M unit :=
  fun w =>
    match heap w !! p with
    | Some d =>
        (Return tt,
         {| heap := <[p := close d]> (heap w);
            calls := calls w ++ [CallClose p] |})
    | None => (Fault, w)
    end.

(** [delete p] for a non-null [p]: the object is gone from the heap. *)
Definition call_delete (p : addr) : M unit :=
  fun w =>
    match heap w !! p with
    | Some _ =>
        (Return tt,
         {| heap := delete p (heap w);
            calls := calls w ++ [CallDelete p] |})
    | None => (Fault, w)
    end.

End World.

Arguments World D : clear implicits.
Arguments M D A : clear implicits.

Declare Scope doc_scope.
Delimit Scope doc_scope with doc.
Notation "'do' x <- m ; k" := (bind m (fun x => k))
  (at level 10, x name, m at level 100, k at level 200) : doc_scope.

Local Open Scope doc_scope.

(** ** The wrapper classes *)

(** [DocumentAccess]: a plain wrapper for a [Document*], with no lock
    semantics of its own. *)
Record DocumentAccess : Type := mkAccess {
  m_document : option addr
}.

(** [DocumentReader] adds no member to its base class. *)
Record DocumentReader : Type := mkReader {
  reader_base :> DocumentAccess
}.

(** [DocumentWriter] adds the two private flags. *)
Record DocumentWriter : Type := mkWriter {
  writer_base :> DocumentAccess;
  m_from_reader : bool;
  m_locked : bool
}.

(** [DocumentDestroyer] adds no member to [DocumentWriter]. *)
Record DocumentDestroyer : Type := mkDestroyer {
  destroyer_base :> DocumentWriter
}.

(** *** DocumentAccess *)

(** [DocumentAccess()] *)
Definition DocumentAccess_default : DocumentAccess :=
  {| m_document := NULL |}.

(** [DocumentAccess(const DocumentAccess& copy)] *)
Definition DocumentAccess_copy (copy : DocumentAccess) : DocumentAccess :=
  {| m_document := m_document copy |}.

(** [explicit DocumentAccess(Document* document)] *)
Definition DocumentAccess_new (document : option addr) : DocumentAccess :=
  {| m_document := document |}.

(** [operator=(const DocumentAccess& copy)] *)
Definition DocumentAccess_assign (this copy : DocumentAccess) : DocumentAccess :=
  {| m_document := m_document copy |}.

(** [operator Document* ()] *)
Definition DocumentAccess_ptr (this : DocumentAccess) : option addr :=
  m_document this.

Section Guards.

Context {D : Type} {Doc : Document D}.

(** [Document* operator->()] (the const overload has the same body). *)
Definition DocumentAccess_arrow (this : DocumentAccess) : M D (option addr) :=
  do _ <- ASSERT (not_null (m_document this));
  ret (m_document this).

(** *** DocumentReader *)

(** [DocumentReader()] *)
Definition DocumentReader_default : DocumentReader :=
  {| reader_base := DocumentAccess_default |}.

(** [explicit DocumentReader(Document* document, int timeout)] *)
Definition DocumentReader_new (document : option addr) (timeout : Z)
  : M D DocumentReader :=
  let this := {| reader_base := DocumentAccess_new document |} in
  match m_document this with
  | Some p =>
      do locked <- call_lock p ReadLock timeout;
      if negb locked then throw LockedDocumentException else ret this
  | None => ret this
  end.

(** [explicit DocumentReader(const DocumentReader& copy, int timeout)] *)
Definition DocumentReader_relock (copy : DocumentReader) (timeout : Z)
  : M D DocumentReader :=
  let this := {| reader_base := DocumentAccess_copy copy |} in
  match m_document this with
  | Some p =>
      do locked <- call_lock p ReadLock timeout;
      if negb locked then throw LockedDocumentException else ret this
  | None => ret this
  end.

(** The copy constructor [DocumentReader(const DocumentReader&)].  The class
    declares none (it only makes [operator=] private), so the compiler
    provides the member-wise one: it copies the base sub-object with
    [DocumentAccess(const DocumentAccess&)] and has an empty body. *)
Definition DocumentReader_copy (copy : DocumentReader) : DocumentReader :=
  {| reader_base := DocumentAccess_copy copy |}.

(** [~DocumentReader()] *)
Definition DocumentReader_dtor (this : DocumentReader) : M D unit :=
  match m_document this with
  | Some p => call_unlock p
  | None => ret tt
  end.

(** *** DocumentWriter *)

(** [DocumentWriter()] *)
Definition DocumentWriter_default : DocumentWriter :=
  {| writer_base := DocumentAccess_default;
     m_from_reader := false;
     m_locked := false |}.

(** [m_locked = b;] *)
Definition set_locked (this : DocumentWriter) (b : bool) : DocumentWriter :=
  {| writer_base := writer_base this;
     m_from_reader := m_from_reader this;
     m_locked := b |}.

(** [explicit DocumentWriter(Document* document, int timeout)] *)
Definition DocumentWriter_new (document : option addr) (timeout : Z)
  : M D DocumentWriter :=
  let this := {| writer_base := DocumentAccess_new document;
                 m_from_reader := false;
                 m_locked := false |} in
  match m_document this with
  | Some p =>
      do locked <- call_lock p WriteLock timeout;
      if negb locked then throw LockedDocumentException
      else ret (set_locked this true)
  | None => ret this
  end.

(** [explicit DocumentWriter(const DocumentReader& document, int timeout)],
    the constructor that elevates a reader-lock to writer permission.  The
    reader is taken by const reference: it is read, never written.  As with
    every constructor here, when the body throws the object never comes
    into being, so its destructor does not run; the destructor of the base
    sub-object does, and it is empty. *)
Definition DocumentWriter_elevate (document : DocumentReader) (timeout : Z)
  : M D DocumentWriter :=
  let this := {| writer_base := DocumentAccess_copy document;
                 m_from_reader := true;
                 m_locked := false |} in
  match m_document this with
  | Some p =>
      do locked <- call_lockToWrite p timeout;
      if negb locked then throw LockedDocumentException
      else ret (set_locked this true)
  | None => ret this
  end.

(** [void unlockWriter()]; the result is the object after the call. *)
Definition unlockWriter (this : DocumentWriter) : M D DocumentWriter :=
  match m_document this with
  | Some p =>
      if m_locked this then
        do _ <- (if m_from_reader this then call_unlockToRead p
                 else call_unlock p);
        ret (set_locked this false)
      else ret this
  | None => ret this
  end.

(** [~DocumentWriter()] *)
Definition DocumentWriter_dtor (this : DocumentWriter) : M D unit :=
  do _ <- unlockWriter this;
  ret tt.

(** *** DocumentDestroyer *)

(** [explicit DocumentDestroyer(Context* context, Document* document,
    int timeout)]; [context] is not used. *)
Definition DocumentDestroyer_new (context : option addr)
    (document : option addr) (timeout : Z) : M D DocumentDestroyer :=
  do base <- DocumentWriter_new document timeout;
  ret {| destroyer_base := base |}.

(** [m_document = NULL;] *)
Definition clear_document (this : DocumentWriter) : DocumentWriter :=
  {| writer_base := {| m_document := NULL |};
     m_from_reader := m_from_reader this;
     m_locked := m_locked this |}.

(** [void destroyDocument()]; the result is the object after the call.
    Each statement reads [m_document] anew; [delete] of a null pointer does
    nothing. *)
Definition destroyDocument (this : DocumentDestroyer) : M D DocumentDestroyer :=
  do _ <- ASSERT (not_null (m_document this));
  do _ <- (match m_document this with
           | Some p => call_close p
           | None => fault
           end);
  do this' <- unlockWriter this;
  do _ <- (match m_document this' with
           | Some p => call_delete p
           | None => ret tt
           end);
  ret {| destroyer_base := clear_document this' |}.

(** [~DocumentDestroyer()]: nothing of its own, then the base destructor. *)
Definition DocumentDestroyer_dtor (this : DocumentDestroyer) : M D unit :=
  DocumentWriter_dtor this.

(** *** A caller that copies a reader

    [{ DocumentReader a(document, timeout); { DocumentReader b(a); } }]:
    [b] goes out of scope first, then [a]. *)
Definition copy_reader_block (document : option addr) (timeout : Z) : M D unit :=
  do a <- DocumentReader_new document timeout;
  let b := DocumentReader_copy a in
  do _ <- DocumentReader_dtor b;
  DocumentReader_dtor a.

End Guards.

(** *** Reading the call log *)

Definition is_acquired (c : Call) : bool :=
  match c with
  | CallLock _ _ _ true => true
  | _ => false
  end.

Definition is_release (c : Call) : bool :=
  match c with
  | CallUnlock _ => true
  | _ => false
  end.

Definition is_downgrade (c : Call) : bool :=
  match c with
  | CallUnlockToRead _ => true
  | _ => false
  end.

Definition is_close (c : Call) : bool :=
  match c with
  | CallClose _ => true
  | _ => false
  end.

Definition count_calls (f : Call -> bool) (l : list Call) : nat :=
  length (List.filter f l).

(** The pointer is not null, points to a live document, and the lock call
    [try] returns [false] on that document. *)
Definition lock_fails {D : Type} (document : option addr) (w : World D)
    (try : D -> bool * D) : Prop :=
  exists (p : addr) (d : D),
    document = Some p /\ heap w !! p = Some d /\ fst (try d) = false.

(** The code throws (any exception at all). *)
Definition throws {A : Type} (o : Outcome A) : Prop :=
  exists e : Exception, o = Throw e.

(** The code [m], run in any world, leaves every document other than the
    one [document] points to exactly as it was. *)
Definition leaves_others {D A : Type} (document : option addr) (m : M D A)
  : Prop :=
  forall (w : World D) (q : addr),
    document <> Some q -> heap (snd (m w)) !! q = heap w !! q.

(** ** A sequential lock state *)

Module LockState.

(** Modelled from the spec: the [Document] class and its lock, which are in
    app/document.h and not in this header.  The resource carries a mode
    ([Unlocked], [Shared n] with [n] holders, [Exclusive]) and counts how
    often it was finalized.  Calls are run one at a time with no other thread
    in between, so a call that would have to wait can only run into its
    timeout: it returns [false] and changes nothing. *)
Inductive Mode : Type := Unlocked | Shared (n : nat) | Exclusive.

Record Resource : Type := mkResource {
  mode : Mode;
  finalized : nat
}.

Definition with_mode (r : Resource) (m : Mode) : Resource :=
  {| mode := m; finalized := finalized r |}.

Definition acquireShared (timeoutMs : Z) (r : Resource) : bool * Resource :=
  match mode r with
  | Unlocked => (true, with_mode r (Shared 1))
  | Shared n => (true, with_mode r (Shared (S n)))
  | Exclusive => (false, r)
  end.

Definition acquireExclusive (timeoutMs : Z) (r : Resource) : bool * Resource :=
  match mode r with
  | Unlocked => (true, with_mode r Exclusive)
  | _ => (false, r)
  end.

(** Releasing with nothing held is a contract violation that the spec
    leaves undefined; here it changes nothing. *)
Definition release (r : Resource) : Resource :=
  match mode r with
  | Unlocked => r
  | Shared n => with_mode r (match Nat.pred n with
                             | O => Unlocked
                             | S k => Shared (S k)
                             end)
  | Exclusive => with_mode r Unlocked
  end.

Definition upgrade (timeoutMs : Z) (r : Resource) : bool * Resource :=
  match mode r with
  | Shared 1 => (true, with_mode r Exclusive)
  | _ => (false, r)
  end.

Definition downgrade (r : Resource) : Resource :=
  match mode r with
  | Exclusive => with_mode r (Shared 1)
  | _ => r
  end.

Definition finalize (r : Resource) : Resource :=
  {| mode := mode r; finalized := S (finalized r) |}.

#[export] Instance Resource_Document : Document Resource := {|
  lock type timeout r :=
    match type with
    | ReadLock => acquireShared timeout r
    | WriteLock => acquireExclusive timeout r
    end;
  lockToWrite := upgrade;
  unlockToRead := downgrade;
  unlock := release;
  close := finalize
|}.

(** A resource nobody holds, one with [n] shared holders, one held
    exclusively, and a world with a single resource at address [1] and a
    given (or an empty) call log. *)
Definition fresh : Resource := {| mode := Unlocked; finalized := 0 |}.

Definition shared (n : nat) : Resource := {| mode := Shared n; finalized := 0 |}.

Definition exclusive : Resource := {| mode := Exclusive; finalized := 0 |}.

Definition doc : addr := 1%positive.

Definition world_at (r : Resource) (log : list Call) : World Resource :=
  {| heap := {[ doc := r ]}; calls := log |}.

Definition world_of (r : Resource) : World Resource := world_at r [].

(** A reader on that resource, as [DocumentReader(doc, timeout)] leaves it. *)
Definition reader : DocumentReader := mkReader (mkAccess (Some doc)).

(** A second address, and a world with a resource at each of the two. *)
Definition doc2 : addr := 2%positive.

Definition world_two (r r2 : Resource) : World Resource :=
  {| heap := {[ doc := r; doc2 := r2 ]}; calls := [] |}.

End LockState.

(** ** Properties *)

Section Properties.

Context {D : Type} {Doc : Document D}.

(** *** What a member call does on a live and on a dead object *)

Lemma call_lock_live (p : addr) (type : LockType) (timeout : Z)
    (w : World D) (d d' : D) (result : bool) :
  heap w !! p = Some d ->
  lock type timeout d = (result, d') ->
  call_lock p type timeout w
  = (Return result,
     {| heap := <[p := d']> (heap w);
        calls := calls w ++ [CallLock p type timeout result] |}).
Proof. intros Hp Hl. unfold call_lock. now rewrite Hp, Hl. Qed.

Lemma call_lockToWrite_live (p : addr) (timeout : Z)
    (w : World D) (d d' : D) (result : bool) :
  heap w !! p = Some d ->
  lockToWrite timeout d = (result, d') ->
  call_lockToWrite p timeout w
  = (Return result,
     {| heap := <[p := d']> (heap w);
        calls := calls w ++ [CallLockToWrite p timeout result] |}).
Proof. intros Hp Hl. unfold call_lockToWrite. now rewrite Hp, Hl. Qed.

Lemma call_unlock_live (p : addr) (w : World D) (d : D) :
  heap w !! p = Some d ->
  call_unlock p w
  = (Return tt,
     {| heap := <[p := unlock d]> (heap w);
        calls := calls w ++ [CallUnlock p] |}).
Proof. intros Hp. unfold call_unlock. now rewrite Hp. Qed.

Lemma call_unlockToRead_live (p : addr) (w : World D) (d : D) :
  heap w !! p = Some d ->
  call_unlockToRead p w
  = (Return tt,
     {| heap := <[p := unlockToRead d]> (heap w);
        calls := calls w ++ [CallUnlockToRead p] |}).
Proof. intros Hp. unfold call_unlockToRead. now rewrite Hp. Qed.

Lemma call_close_live (p : addr) (w : World D) (d : D) :
  heap w !! p = Some d ->
  call_close p w
  = (Return tt,
     {| heap := <[p := close d]> (heap w);
        calls := calls w ++ [CallClose p] |}).
Proof. intros Hp. unfold call_close. now rewrite Hp. Qed.

Lemma call_delete_live (p : addr) (w : World D) (d : D) :
  heap w !! p = Some d ->
  call_delete p w
  = (Return tt,
     {| heap := delete p (heap w);
        calls := calls w ++ [CallDelete p] |}).
Proof. intros Hp. unfold call_delete. now rewrite Hp. Qed.

Lemma call_lock_dead (p : addr) (type : LockType) (timeout : Z) (w : World D) :
  heap w !! p = None -> call_lock p type timeout w = (Fault, w).
Proof. intros Hp. unfold call_lock. now rewrite Hp. Qed.

Lemma call_lockToWrite_dead (p : addr) (timeout : Z) (w : World D) :
  heap w !! p = None -> call_lockToWrite p timeout w = (Fault, w).
Proof. intros Hp. unfold call_lockToWrite. now rewrite Hp. Qed.

(** Two steps of the log read as one. *)
Lemma log_two (l : list Call) (a b : Call) : (l ++ [a]) ++ [b] = l ++ [a; b].
Proof. now rewrite <- app_assoc. Qed.

Lemma log_three (l : list Call) (a b c : Call) :
  ((l ++ [a]) ++ [b]) ++ [c] = l ++ [a; b; c].
Proof. now rewrite <- !app_assoc. Qed.

(** *** The tag and the flag a constructor leaves behind *)

Lemma DocumentWriter_new_fields (document : option addr) (timeout : Z)
    (w w1 : World D) (this : DocumentWriter) :
  DocumentWriter_new document timeout w = (Return this, w1) ->
  m_document this = document
  /\ m_from_reader this = false
  /\ m_locked this = not_null document.
Proof.
  unfold DocumentWriter_new, bind, call_lock, ret, throw. simpl.
  destruct document as [p|]; simpl.
  - destruct (heap w !! p) as [d|]; [|discriminate].
    destruct (lock WriteLock timeout d) as [[|] d']; simpl; [|discriminate].
    intros [= <- _]. now simpl.
  - intros [= <- _]. now simpl.
Qed.

Lemma DocumentWriter_elevate_fields (reader : DocumentReader) (timeout : Z)
    (w w1 : World D) (this : DocumentWriter) :
  DocumentWriter_elevate reader timeout w = (Return this, w1) ->
  m_document this = m_document reader
  /\ m_from_reader this = true
  /\ m_locked this = not_null (m_document reader).
Proof.
  unfold DocumentWriter_elevate, bind, call_lockToWrite, ret, throw. simpl.
  destruct (m_document reader) as [p|] eqn:Hdoc; simpl.
  - destruct (heap w !! p) as [d|]; [|discriminate].
    destruct (lockToWrite timeout d) as [[|] d']; simpl; [|discriminate].
    intros [= <- _]. now simpl.
  - intros [= <- _]. now simpl.
Qed.

Lemma DocumentDestroyer_new_fields (context document : option addr)
    (timeout : Z) (w w1 : World D) (this : DocumentDestroyer) :
  DocumentDestroyer_new context document timeout w = (Return this, w1) ->
  m_document this = document
  /\ m_from_reader this = false
  /\ m_locked this = not_null document.
Proof.
  unfold DocumentDestroyer_new, bind, ret.
  destruct (DocumentWriter_new document timeout w) as [[base| | |] w2] eqn:Hbase;
    try discriminate.
  intros [= <- _]. simpl. exact (DocumentWriter_new_fields _ _ _ _ _ Hbase).
Qed.

(** The log a constructor of [DocumentWriter(Document*, int)] leaves when
    it returns: one successful [lock] for a document, nothing for [NULL]. *)
Lemma DocumentWriter_new_log (document : option addr) (timeout : Z)
    (w w1 : World D) (this : DocumentWriter) :
  DocumentWriter_new document timeout w = (Return this, w1) ->
  calls w1 = calls w ++ match document with
                        | Some p => [CallLock p WriteLock timeout true]
                        | None => []
                        end.
Proof.
  unfold DocumentWriter_new, bind, call_lock, ret, throw. simpl.
  destruct document as [p|]; simpl.
  - destruct (heap w !! p) as [d|]; [|discriminate].
    destruct (lock WriteLock timeout d) as [[|] d']; simpl; [|discriminate].
    now intros [= _ <-].
  - intros [= _ <-]. now rewrite app_nil_r.
Qed.

(** Counting in a log that grew. *)
Lemma count_calls_app (f : Call -> bool) (l1 l2 : list Call) :
  count_calls f (l1 ++ l2) = count_calls f l1 + count_calls f l2.
Proof. unfold count_calls. now rewrite List.filter_app, length_app. Qed.

(** A writer that was not made from a reader never adds an
    [unlockToRead] to the log, whatever the world. *)
Lemma unlockWriter_direct_log (this : DocumentWriter) (w : World D) :
  m_from_reader this = false ->
  count_calls is_downgrade (calls (snd (unlockWriter this w)))
  = count_calls is_downgrade (calls w).
Proof.
  intros Htag. unfold unlockWriter, bind, ret. rewrite Htag.
  destruct (m_document this) as [p|]; [|reflexivity].
  destruct (m_locked this); [|reflexivity].
  unfold call_unlock. destruct (heap w !! p) as [d|]; [|reflexivity].
  simpl. rewrite count_calls_app. unfold count_calls. simpl. lia.
Qed.

(** *** Claims *)

(** C1.  When elevating a reader to a writer fails, the constructor throws
    [LockedDocumentException] and the only thing it did to the document is
    the failed [lockToWrite] call: nothing was unlocked, the reader is the
    object it was, and its own destructor still performs its one [unlock].
    If the failed [lockToWrite] left the document as it found it, the heap
    is unchanged. *)
Theorem failed_elevate_keeps_reader
    (reader : DocumentReader) (timeout : Z) (w : World D)
    (p : addr) (d d' : D) :
  m_document reader = Some p ->
  heap w !! p = Some d ->
  lockToWrite timeout d = (false, d') ->
  let w1 := {| heap := <[p := d']> (heap w);
               calls := calls w ++ [CallLockToWrite p timeout false] |} in
  DocumentWriter_elevate reader timeout w
  = (Throw LockedDocumentException, w1)
  /\ (d' = d -> heap w1 = heap w)
  /\ DocumentReader_dtor reader w1
     = (Return tt,
        {| heap := <[p := unlock d']> (heap w);
           calls := calls w ++ [CallLockToWrite p timeout false;
                                CallUnlock p] |}).
Proof.
  intros Hdoc Hlive Hfail w1. repeat split.
  - unfold DocumentWriter_elevate, bind. simpl. rewrite Hdoc.
    now rewrite (call_lockToWrite_live p timeout w d d' false Hlive Hfail).
  - intros ->. simpl. now apply insert_id.
  - unfold DocumentReader_dtor. rewrite Hdoc.
    rewrite (call_unlock_live p w1 d').
    + simpl. now rewrite insert_insert_eq, log_two.
    + simpl. apply lookup_insert_eq.
Qed.

(** C7.  When the write lock cannot be taken, [DocumentWriter(Document*,
    int)] throws before [m_locked] is set: no object comes into being, so
    no destructor can run for it, and the log shows the failed [lock] call
    and nothing else. *)
Theorem failed_write_open_commits_nothing
    (timeout : Z) (w : World D) (p : addr) (d d' : D) :
  heap w !! p = Some d ->
  lock WriteLock timeout d = (false, d') ->
  DocumentWriter_new (Some p) timeout w
  = (Throw LockedDocumentException,
     {| heap := <[p := d']> (heap w);
        calls := calls w ++ [CallLock p WriteLock timeout false] |}).
Proof.
  intros Hlive Hfail. unfold DocumentWriter_new, bind. simpl.
  now rewrite (call_lock_live p WriteLock timeout w d d' false Hlive Hfail).
Qed.

(** The two-argument constructor does take a lock of its own for the
    second reader. *)
Lemma DocumentReader_relock_locks (copy this : DocumentReader) (timeout : Z)
    (w w1 : World D) (p : addr) :
  m_document copy = Some p ->
  DocumentReader_relock copy timeout w = (Return this, w1) ->
  m_document this = Some p
  /\ calls w1 = calls w ++ [CallLock p ReadLock timeout true].
Proof.
  intros Hdoc. unfold DocumentReader_relock, bind, call_lock, ret, throw.
  simpl. rewrite Hdoc.
  destruct (heap w !! p) as [d|]; [|discriminate].
  destruct (lock ReadLock timeout d) as [[|] d']; simpl; [|discriminate].
  intros [= <- <-]. now simpl.
Qed.

(** C2, on the code as it is.  A reader made by the copy constructor takes
    no lock of its own, yet its destructor unlocks: one successful [lock] is
    followed by two [unlock] calls on the same document. *)
Theorem copied_reader_unlocks_twice
    (timeout : Z) (w : World D) (p : addr) (d d' : D) :
  heap w !! p = Some d ->
  lock ReadLock timeout d = (true, d') ->
  let new_calls := [CallLock p ReadLock timeout true;
                    CallUnlock p; CallUnlock p] in
  copy_reader_block (Some p) timeout w
  = (Return tt,
     {| heap := <[p := unlock (unlock d')]> (heap w);
        calls := calls w ++ new_calls |})
  /\ count_calls is_acquired new_calls = 1
  /\ count_calls is_release new_calls = 2.
Proof.
  intros Hlive Hlock new_calls. split; [|split; reflexivity].
  unfold copy_reader_block, DocumentReader_new, bind. simpl.
  rewrite (call_lock_live p ReadLock timeout w d d' true Hlive Hlock). simpl.
  unfold DocumentReader_dtor. simpl.
  erewrite call_unlock_live by (simpl; apply lookup_insert_eq). simpl.
  erewrite call_unlock_live by (simpl; apply lookup_insert_eq). simpl.
  now rewrite !insert_insert_eq, log_three.
Qed.

(** C3.  A writer that holds its lock when it is destroyed calls
    [unlockToRead] (and not [unlock]) when it was made from a reader, and
    [unlock] (and not [unlockToRead]) when it locked the document itself;
    either way that is the one call its destructor makes. *)
Theorem writer_release_path
    (this : DocumentWriter) (w : World D) (p : addr) (d : D) :
  m_document this = Some p ->
  m_locked this = true ->
  heap w !! p = Some d ->
  DocumentWriter_dtor this w
  = (Return tt,
     if m_from_reader this
     then {| heap := <[p := unlockToRead d]> (heap w);
             calls := calls w ++ [CallUnlockToRead p] |}
     else {| heap := <[p := unlock d]> (heap w);
             calls := calls w ++ [CallUnlock p] |}).
Proof.
  intros Hdoc Hlocked Hlive.
  unfold DocumentWriter_dtor, unlockWriter, bind. rewrite Hdoc, Hlocked.
  destruct (m_from_reader this).
  - now rewrite (call_unlockToRead_live p w d Hlive).
  - now rewrite (call_unlock_live p w d Hlive).
Qed.

(** C5.  [unlockWriter] is idempotent: after one call has returned, a
    second call, or the destructor, returns at once, makes no call on the
    document and leaves the object and the world as they are; the first
    call left [m_locked] false (or there was no document to begin with). *)
Theorem unlockWriter_idempotent
    (this this1 : DocumentWriter) (w w1 : World D) :
  unlockWriter this w = (Return this1, w1) ->
  unlockWriter this1 w1 = (Return this1, w1)
  /\ DocumentWriter_dtor this1 w1 = (Return tt, w1)
  /\ (m_document this1 = NULL \/ m_locked this1 = false).
Proof.
  intros Hfirst.
  assert (Hflag : m_document this1 = NULL \/ m_locked this1 = false).
  { revert Hfirst. unfold unlockWriter, bind, ret.
    destruct (m_document this) as [p|] eqn:Hdoc.
    - destruct (m_locked this) eqn:Hlocked.
      + destruct (m_from_reader this);
          [ destruct (call_unlockToRead p w) as [[[]| | |] w2]
          | destruct (call_unlock p w) as [[[]| | |] w2] ];
          try discriminate; intros [= <- <-]; now right.
      + intros [= <- <-]. now right.
    - intros [= <- <-]. now left. }
  assert (Hsecond : unlockWriter this1 w1 = (Return this1, w1)).
  { revert Hfirst. unfold unlockWriter, bind, ret.
    destruct (m_document this) as [p|] eqn:Hdoc.
    - destruct (m_locked this) eqn:Hlocked.
      + destruct (m_from_reader this);
          [ destruct (call_unlockToRead p w) as [[[]| | |] w2]
          | destruct (call_unlock p w) as [[[]| | |] w2] ];
          try discriminate; intros [= <- <-]; simpl; now rewrite Hdoc.
      + intros [= <- <-]. now rewrite Hdoc, Hlocked.
    - intros [= <- <-]. now rewrite Hdoc. }
  split; [exact Hsecond|]. split; [|exact Hflag].
  unfold DocumentWriter_dtor, bind. now rewrite Hsecond.
Qed.

(** C4.  On a destroyer that was constructed over a document,
    [destroyDocument] makes exactly three calls, in this order: [close]
    (the write lock is still held), [unlock], [delete].  It returns the
    object with a null [m_document]; the document is gone from the heap;
    and the destructor that runs afterwards does nothing.  So over
    [destroyDocument] and the destructor together there is one [close] and
    one [unlock]. *)
Theorem destroyDocument_sequence
    (context : option addr) (p : addr) (timeout : Z)
    (w0 w1 w : World D) (this : DocumentDestroyer) (d : D) :
  DocumentDestroyer_new context (Some p) timeout w0 = (Return this, w1) ->
  heap w !! p = Some d ->
  let new_calls := [CallClose p; CallUnlock p; CallDelete p] in
  let w' := {| heap := delete p (heap w); calls := calls w ++ new_calls |} in
  exists this' : DocumentDestroyer,
    destroyDocument this w = (Return this', w')
    /\ m_document this' = NULL
    /\ heap w' !! p = None
    /\ DocumentDestroyer_dtor this' w' = (Return tt, w')
    /\ count_calls is_close new_calls = 1
    /\ count_calls is_release new_calls = 1.
Proof.
  intros Hnew Hlive new_calls w'.
  destruct (DocumentDestroyer_new_fields _ _ _ _ _ _ Hnew)
    as (Hdoc & Htag & Hlocked). simpl in Hlocked.
  exists {| destroyer_base := clear_document (set_locked this false) |}.
  repeat split.
  - unfold destroyDocument, bind. rewrite Hdoc. simpl.
    rewrite (call_close_live p w d Hlive).
    unfold unlockWriter, bind. rewrite Hdoc, Hlocked, Htag.
    erewrite call_unlock_live by (simpl; apply lookup_insert_eq).
    simpl. rewrite Hdoc.
    erewrite call_delete_live by (simpl; apply lookup_insert_eq).
    simpl. unfold ret, w'.
    now rewrite !delete_insert_eq, log_three.
  - apply lookup_delete_eq.
Qed.

(** C6.  The only constructor of [DocumentDestroyer] goes through
    [DocumentWriter(Document*, int)]: what it logs is a [lock] for writing
    (never a [lockToWrite]), and its [m_from_reader] is [false].  Its
    release is the plain one: over a live document the destructor makes
    exactly one call, [unlock], and [destroyDocument] releases with that
    same [unlock] between [close] and [delete]; over [NULL] the destructor
    calls nothing.  In no world does the destructor or [destroyDocument]
    call [unlockToRead]. *)
Theorem destroyer_is_direct
    (context document : option addr) (timeout : Z)
    (w0 w1 : World D) (this : DocumentDestroyer) :
  DocumentDestroyer_new context document timeout w0 = (Return this, w1) ->
  m_from_reader this = false
  /\ calls w1 = calls w0 ++ match document with
                           | Some p => [CallLock p WriteLock timeout true]
                           | None => []
                           end
  /\ (forall w : World D,
        count_calls is_downgrade (calls (snd (DocumentDestroyer_dtor this w)))
        = count_calls is_downgrade (calls w))
  /\ (forall w : World D,
        count_calls is_downgrade (calls (snd (destroyDocument this w)))
        = count_calls is_downgrade (calls w))
  /\ (forall (p : addr) (w : World D) (d : D),
        document = Some p ->
        heap w !! p = Some d ->
        DocumentDestroyer_dtor this w
        = (Return tt,
           {| heap := <[p := unlock d]> (heap w);
              calls := calls w ++ [CallUnlock p] |})
        /\ snd (destroyDocument this w)
           = {| heap := delete p (heap w);
                calls := calls w ++ [CallClose p; CallUnlock p;
                                     CallDelete p] |})
  /\ (document = NULL ->
      forall w : World D, DocumentDestroyer_dtor this w = (Return tt, w)).
Proof.
  intros Hnew.
  destruct (DocumentDestroyer_new_fields _ _ _ _ _ _ Hnew)
    as (Hdoc & Htag & Hlocked).
  split; [exact Htag|]. split; [|split; [|split; [|split]]].
  - revert Hnew. unfold DocumentDestroyer_new, bind, ret.
    destruct (DocumentWriter_new document timeout w0)
      as [[base| | |] w2] eqn:Hbase; try discriminate.
    intros [= _ <-]. exact (DocumentWriter_new_log _ _ _ _ _ Hbase).
  - intros w. unfold DocumentDestroyer_dtor, DocumentWriter_dtor, bind.
    pose proof (unlockWriter_direct_log this w Htag) as Hlog.
    destruct (unlockWriter this w) as [[this1| | |] w2]; exact Hlog.
  - intros w. unfold destroyDocument, bind, ASSERT, ret. rewrite Hdoc.
    destruct document as [p|]; simpl; [|reflexivity].
    unfold call_close. destruct (heap w !! p) as [d|]; [|reflexivity].
    unfold unlockWriter, bind, ret. rewrite Hdoc, Htag, Hlocked. simpl.
    unfold call_unlock. simpl. rewrite lookup_insert_eq. simpl. rewrite Hdoc.
    unfold call_delete. simpl. rewrite lookup_insert_eq. simpl.
    rewrite !count_calls_app. unfold count_calls. simpl. lia.
  - intros p w d -> Hlive. simpl in Hlocked. split.
    + unfold DocumentDestroyer_dtor, DocumentWriter_dtor, unlockWriter, bind.
      rewrite Hdoc, Hlocked, Htag.
      now rewrite (call_unlock_live p w d Hlive).
    + unfold destroyDocument, bind. rewrite Hdoc. simpl.
      rewrite (call_close_live p w d Hlive).
      unfold unlockWriter, bind. rewrite Hdoc, Hlocked, Htag.
      erewrite call_unlock_live by (simpl; apply lookup_insert_eq).
      simpl. rewrite Hdoc.
      erewrite call_delete_live by (simpl; apply lookup_insert_eq).
      simpl. now rewrite !delete_insert_eq, log_three.
  - intros -> w.
    unfold DocumentDestroyer_dtor, DocumentWriter_dtor, unlockWriter, bind.
    now rewrite Hdoc.
Qed.

(** *** When a constructor throws *)

(** The four constructors that lock have the same shape: a null test, one
    lock call, a throw when it returned [false]. *)
Ltac throws_iff call try :=
  unfold throws, lock_fails, bind, call; simpl;
  split;
  [ intros [? Hthrow];
    match type of Hthrow with
    | context [match ?doc with Some _ => _ | None => _ end] =>
        destruct doc; [|discriminate]
    end;
    match type of Hthrow with
    | context [heap ?w !! ?q] =>
        let Hlive := fresh "Hlive" in
        destruct (heap w !! q) as [d0|] eqn:Hlive; [|discriminate];
        exists q, d0; split; [reflexivity|]; split; [exact Hlive|];
        destruct (try d0) as [[|] ?]; [discriminate|reflexivity]
    end
  | let Hlive := fresh "Hlive" in
    intros (? & d0 & -> & Hlive & ?); rewrite Hlive;
    destruct (try d0) as [[|] ?]; [discriminate|];
    now exists LockedDocumentException ].

Lemma DocumentReader_new_throws (document : option addr) (timeout : Z)
    (w : World D) :
  throws (fst (DocumentReader_new document timeout w))
  <-> lock_fails document w (lock ReadLock timeout).
Proof.
  unfold DocumentReader_new. throws_iff @call_lock (lock ReadLock timeout).
Qed.

Lemma DocumentReader_relock_throws (copy : DocumentReader) (timeout : Z)
    (w : World D) :
  throws (fst (DocumentReader_relock copy timeout w))
  <-> lock_fails (m_document copy) w (lock ReadLock timeout).
Proof.
  unfold DocumentReader_relock. throws_iff @call_lock (lock ReadLock timeout).
Qed.

Lemma DocumentWriter_new_throws (document : option addr) (timeout : Z)
    (w : World D) :
  throws (fst (DocumentWriter_new document timeout w))
  <-> lock_fails document w (lock WriteLock timeout).
Proof.
  unfold DocumentWriter_new. throws_iff @call_lock (lock WriteLock timeout).
Qed.

Lemma DocumentWriter_elevate_throws (reader : DocumentReader) (timeout : Z)
    (w : World D) :
  throws (fst (DocumentWriter_elevate reader timeout w))
  <-> lock_fails (m_document reader) w (lockToWrite timeout).
Proof.
  unfold DocumentWriter_elevate.
  throws_iff @call_lockToWrite (lockToWrite timeout).
Qed.

(** C8, as the code has it.  Whenever the lock call of a constructor
    returns [false], the constructor throws [LockedDocumentException], and
    the message of that exception is the three-line text of the header. *)
Theorem lock_failure_throws_LockedDocumentException
    (context : option addr) (reader : DocumentReader) (timeout : Z)
    (w : World D) (p : addr) (d : D) :
  m_document reader = Some p ->
  heap w !! p = Some d ->
  (fst (lock ReadLock timeout d) = false ->
     fst (DocumentReader_new (Some p) timeout w)
     = Throw LockedDocumentException
     /\ fst (DocumentReader_relock reader timeout w)
        = Throw LockedDocumentException)
  /\ (fst (lock WriteLock timeout d) = false ->
        fst (DocumentWriter_new (Some p) timeout w)
        = Throw LockedDocumentException
        /\ fst (DocumentDestroyer_new context (Some p) timeout w)
           = Throw LockedDocumentException)
  /\ (fst (lockToWrite timeout d) = false ->
        fst (DocumentWriter_elevate reader timeout w)
        = Throw LockedDocumentException)
  /\ what LockedDocumentException
     = ("Cannot read or write the active document." ++ nl ++
        "It is locked by a background task." ++ nl ++
        "Try again later.")%string.
Proof.
  intros Hdoc Hlive. repeat split.
  - unfold DocumentReader_new, bind, call_lock. simpl. rewrite Hlive.
    destruct (lock ReadLock timeout d) as [[|] d']; [discriminate|reflexivity].
  - unfold DocumentReader_relock, bind, call_lock. simpl.
    rewrite Hdoc, Hlive.
    destruct (lock ReadLock timeout d) as [[|] d']; [discriminate|reflexivity].
  - unfold DocumentWriter_new, bind, call_lock. simpl. rewrite Hlive.
    destruct (lock WriteLock timeout d) as [[|] d']; [discriminate|reflexivity].
  - unfold DocumentDestroyer_new, DocumentWriter_new, bind, call_lock.
    simpl. rewrite Hlive.
    destruct (lock WriteLock timeout d) as [[|] d']; [discriminate|reflexivity].
  - unfold DocumentWriter_elevate, bind, call_lockToWrite. simpl.
    rewrite Hdoc, Hlive.
    destruct (lockToWrite timeout d) as [[|] d']; [discriminate|reflexivity].
Qed.

(** C9.  [operator->] on a default-constructed [DocumentAccess],
    [DocumentReader] or [DocumentWriter] fails its [ASSERT]: the outcome is
    neither a return nor an exception.  On a guard whose constructor
    returned after being given a document, in whatever world it is used,
    the [ASSERT] passes and the document's address comes back. *)
Theorem arrow_asserts_only_on_unopened (w : World D) :
  DocumentAccess_arrow DocumentAccess_default w = (AssertFail, w)
  /\ DocumentAccess_arrow DocumentReader_default w = (AssertFail, w)
  /\ DocumentAccess_arrow DocumentWriter_default w = (AssertFail, w)
  /\ (forall (p : addr) (timeout : Z) (w0 w1 : World D) (g : DocumentReader),
        DocumentReader_new (Some p) timeout w0 = (Return g, w1) ->
        DocumentAccess_arrow g w = (Return (Some p), w))
  /\ (forall (p : addr) (timeout : Z) (w0 w1 : World D) (g : DocumentWriter),
        DocumentWriter_new (Some p) timeout w0 = (Return g, w1) ->
        DocumentAccess_arrow g w = (Return (Some p), w))
  /\ (forall (p : addr) (timeout : Z) (w0 w1 : World D)
             (reader : DocumentReader) (g : DocumentWriter),
        m_document reader = Some p ->
        DocumentWriter_elevate reader timeout w0 = (Return g, w1) ->
        DocumentAccess_arrow g w = (Return (Some p), w))
  /\ (forall (context : option addr) (p : addr) (timeout : Z)
             (w0 w1 : World D) (g : DocumentDestroyer),
        DocumentDestroyer_new context (Some p) timeout w0 = (Return g, w1) ->
        DocumentAccess_arrow g w = (Return (Some p), w)).
Proof.
  split; [reflexivity|]. split; [reflexivity|]. split; [reflexivity|].
  split; [|split; [|split]].
  - intros p timeout w0 w1 g.
    unfold DocumentReader_new, bind, call_lock, ret, throw. simpl.
    destruct (heap w0 !! p) as [d|]; [|discriminate].
    destruct (lock ReadLock timeout d) as [[|] d']; simpl; [|discriminate].
    now intros [= <- _].
  - intros p timeout w0 w1 g Hnew.
    destruct (DocumentWriter_new_fields _ _ _ _ _ Hnew) as (Hdoc & _).
    unfold DocumentAccess_arrow, bind. now rewrite Hdoc.
  - intros p timeout w0 w1 reader g Hreader Hnew.
    destruct (DocumentWriter_elevate_fields _ _ _ _ _ Hnew) as (Hdoc & _).
    unfold DocumentAccess_arrow, bind. now rewrite Hdoc, Hreader.
  - intros context p timeout w0 w1 g Hnew.
    destruct (DocumentDestroyer_new_fields _ _ _ _ _ _ Hnew) as (Hdoc & _).
    unfold DocumentAccess_arrow, bind. now rewrite Hdoc.
Qed.

(** C10.  Given a null pointer, each constructor of a reader or a writer
    returns at once: it calls nothing, throws nothing, and the guard it
    makes has a null [m_document] (and, for a writer, [m_locked] false);
    destroying that guard calls nothing either.  And a constructor throws
    exactly when its pointer is not null and the lock call returns
    [false]. *)
Theorem null_document_is_not_locked (timeout : Z) (w : World D) :
  (DocumentReader_new NULL timeout w = (Return DocumentReader_default, w)
   /\ DocumentWriter_new NULL timeout w = (Return DocumentWriter_default, w)
   /\ DocumentReader_relock DocumentReader_default timeout w
      = (Return DocumentReader_default, w)
   /\ DocumentWriter_elevate DocumentReader_default timeout w
      = (Return (mkWriter DocumentAccess_default true false), w))
  /\ (forall w' : World D,
        DocumentReader_dtor DocumentReader_default w' = (Return tt, w')
        /\ DocumentWriter_dtor DocumentWriter_default w' = (Return tt, w')
        /\ DocumentWriter_dtor (mkWriter DocumentAccess_default true false) w'
           = (Return tt, w'))
  /\ (forall document : option addr,
        throws (fst (DocumentReader_new document timeout w))
        <-> lock_fails document w (lock ReadLock timeout))
  /\ (forall copy : DocumentReader,
        throws (fst (DocumentReader_relock copy timeout w))
        <-> lock_fails (m_document copy) w (lock ReadLock timeout))
  /\ (forall document : option addr,
        throws (fst (DocumentWriter_new document timeout w))
        <-> lock_fails document w (lock WriteLock timeout))
  /\ (forall reader : DocumentReader,
        throws (fst (DocumentWriter_elevate reader timeout w))
        <-> lock_fails (m_document reader) w (lockToWrite timeout)).
Proof.
  split; [repeat split|]. split; [intros w'; repeat split|].
  split; [intros; apply DocumentReader_new_throws|].
  split; [intros; apply DocumentReader_relock_throws|].
  split; [intros; apply DocumentWriter_new_throws|].
  intros; apply DocumentWriter_elevate_throws.
Qed.

End Properties.

(** ** Whole scopes, edge cases and what the guards never touch *)

Section Scopes.

Context {D : Type} {Doc : Document D}.

(** *** Framing, step by step *)

Lemma leaves_others_ret {A : Type} (document : option addr) (a : A) :
  leaves_others (D := D) document (ret a).
Proof. now intros w q _. Qed.

Lemma leaves_others_throw {A : Type} (document : option addr) (e : Exception) :
  leaves_others (D := D) (A := A) document (throw e).
Proof. now intros w q _. Qed.

Lemma leaves_others_bind {A B : Type} (document : option addr)
    (m : M D A) (k : A -> M D B) :
  leaves_others document m ->
  (forall a : A, leaves_others document (k a)) ->
  leaves_others document (bind m k).
Proof.
  intros Hm Hk w q Hq. specialize (Hm w q Hq). unfold bind.
  destruct (m w) as [[a| | |] w1]; simpl in *; try exact Hm.
  now rewrite (Hk a w1 q Hq).
Qed.

Lemma leaves_others_call_lock (p : addr) (type : LockType) (timeout : Z) :
  leaves_others (Some p) (call_lock p type timeout).
Proof.
  intros w q Hq. unfold call_lock.
  destruct (heap w !! p) as [d|]; [|reflexivity].
  destruct (lock type timeout d) as [result d']. simpl.
  apply lookup_insert_ne. congruence.
Qed.

Lemma leaves_others_call_lockToWrite (p : addr) (timeout : Z) :
  leaves_others (Some p) (call_lockToWrite p timeout).
Proof.
  intros w q Hq. unfold call_lockToWrite.
  destruct (heap w !! p) as [d|]; [|reflexivity].
  destruct (lockToWrite timeout d) as [result d']. simpl.
  apply lookup_insert_ne. congruence.
Qed.

Lemma leaves_others_call_unlock (p : addr) :
  leaves_others (Some p) (call_unlock p).
Proof.
  intros w q Hq. unfold call_unlock.
  destruct (heap w !! p) as [d|]; [|reflexivity].
  simpl. apply lookup_insert_ne. congruence.
Qed.

Lemma leaves_others_call_unlockToRead (p : addr) :
  leaves_others (Some p) (call_unlockToRead p).
Proof.
  intros w q Hq. unfold call_unlockToRead.
  destruct (heap w !! p) as [d|]; [|reflexivity].
  simpl. apply lookup_insert_ne. congruence.
Qed.

Lemma leaves_others_call_close (p : addr) :
  leaves_others (Some p) (call_close p).
Proof.
  intros w q Hq. unfold call_close.
  destruct (heap w !! p) as [d|]; [|reflexivity].
  simpl. apply lookup_insert_ne. congruence.
Qed.

Lemma leaves_others_call_delete (p : addr) :
  leaves_others (D := D) (Some p) (call_delete p).
Proof.
  intros w q Hq. unfold call_delete.
  destruct (heap w !! p) as [d|]; [|reflexivity].
  simpl. apply lookup_delete_ne. congruence.
Qed.

Lemma leaves_others_unlockWriter (this : DocumentWriter) :
  leaves_others (m_document this) (unlockWriter this).
Proof.
  unfold unlockWriter. destruct (m_document this) as [p|];
    [|apply leaves_others_ret].
  destruct (m_locked this); [|apply leaves_others_ret].
  apply leaves_others_bind; [|intros; apply leaves_others_ret].
  destruct (m_from_reader this);
    [apply leaves_others_call_unlockToRead | apply leaves_others_call_unlock].
Qed.

(** [unlockWriter] hands back the object with the same pointer. *)
Lemma unlockWriter_keeps_document (this this1 : DocumentWriter)
    (w w1 : World D) :
  unlockWriter this w = (Return this1, w1) ->
  m_document this1 = m_document this.
Proof.
  unfold unlockWriter, bind, ret.
  destruct (m_document this) as [p|] eqn:Hdoc.
  - destruct (m_locked this).
    + destruct (m_from_reader this);
        [ destruct (call_unlockToRead p w) as [[[]| | |] w2]
        | destruct (call_unlock p w) as [[[]| | |] w2] ];
        try discriminate; intros [= <- _]; exact Hdoc.
    + intros [= <- _]. exact Hdoc.
  - intros [= <- _]. exact Hdoc.
Qed.

(** *** Scopes that succeed *)

(** X1.  A reader opened on a live document whose read lock is granted
    comes back pointing to that document, and by the end of its scope the
    document has seen exactly that [lock] and, after it, one [unlock]. *)
Theorem reader_scope_is_balanced
    (timeout : Z) (w : World D) (p : addr) (d d' : D) :
  heap w !! p = Some d ->
  lock ReadLock timeout d = (true, d') ->
  DocumentReader_new (Some p) timeout w
  = (Return (mkReader (mkAccess (Some p))),
     {| heap := <[p := d']> (heap w);
        calls := calls w ++ [CallLock p ReadLock timeout true] |})
  /\ (do a <- DocumentReader_new (Some p) timeout;
      DocumentReader_dtor a) w
     = (Return tt,
        {| heap := <[p := unlock d']> (heap w);
           calls := calls w ++ [CallLock p ReadLock timeout true;
                                CallUnlock p] |}).
Proof.
  intros Hlive Hlock.
  assert (Hnew : DocumentReader_new (Some p) timeout w
                 = (Return (mkReader (mkAccess (Some p))),
                    {| heap := <[p := d']> (heap w);
                       calls := calls w ++ [CallLock p ReadLock timeout true] |})).
  { unfold DocumentReader_new, bind. simpl.
    now rewrite (call_lock_live p ReadLock timeout w d d' true Hlive Hlock). }
  split; [exact Hnew|].
  unfold bind. rewrite Hnew. unfold DocumentReader_dtor. simpl.
  erewrite call_unlock_live by (simpl; apply lookup_insert_eq). simpl.
  now rewrite insert_insert_eq, log_two.
Qed.

(** X2.  A writer opened on a live document whose write lock is granted
    comes back with [m_locked] set and [m_from_reader] clear, and by the end
    of its scope the document has seen exactly that [lock] and one
    [unlock], never an [unlockToRead]. *)
Theorem writer_scope_is_balanced
    (timeout : Z) (w : World D) (p : addr) (d d' : D) :
  heap w !! p = Some d ->
  lock WriteLock timeout d = (true, d') ->
  DocumentWriter_new (Some p) timeout w
  = (Return (mkWriter (mkAccess (Some p)) false true),
     {| heap := <[p := d']> (heap w);
        calls := calls w ++ [CallLock p WriteLock timeout true] |})
  /\ (do b <- DocumentWriter_new (Some p) timeout;
      DocumentWriter_dtor b) w
     = (Return tt,
        {| heap := <[p := unlock d']> (heap w);
           calls := calls w ++ [CallLock p WriteLock timeout true;
                                CallUnlock p] |}).
Proof.
  intros Hlive Hlock.
  assert (Hnew : DocumentWriter_new (Some p) timeout w
                 = (Return (mkWriter (mkAccess (Some p)) false true),
                    {| heap := <[p := d']> (heap w);
                       calls := calls w ++ [CallLock p WriteLock timeout true] |})).
  { unfold DocumentWriter_new, bind. simpl.
    now rewrite (call_lock_live p WriteLock timeout w d d' true Hlive Hlock). }
  split; [exact Hnew|].
  unfold bind at 1. rewrite Hnew.
  unfold DocumentWriter_dtor, unlockWriter, bind. simpl.
  erewrite call_unlock_live by (simpl; apply lookup_insert_eq). simpl.
  now rewrite insert_insert_eq, log_two.
Qed.

(** X3.  Elevating a reader whose [lockToWrite] is granted nests inside
    the reader's scope: the writer's destructor gives the write permission
    back with [unlockToRead], and only then does the reader's destructor
    [unlock].  The three calls come in that order and nothing else is
    called. *)
Theorem elevate_scope_nests
    (reader : DocumentReader) (timeout : Z) (w : World D)
    (p : addr) (d d' : D) :
  m_document reader = Some p ->
  heap w !! p = Some d ->
  lockToWrite timeout d = (true, d') ->
  (do b <- DocumentWriter_elevate reader timeout;
   do _ <- DocumentWriter_dtor b;
   DocumentReader_dtor reader) w
  = (Return tt,
     {| heap := <[p := unlock (unlockToRead d')]> (heap w);
        calls := calls w ++ [CallLockToWrite p timeout true;
                             CallUnlockToRead p; CallUnlock p] |}).
Proof.
  intros Hdoc Hlive Hlock.
  unfold DocumentWriter_elevate, bind at 1. simpl. rewrite Hdoc.
  unfold bind at 1.
  rewrite (call_lockToWrite_live p timeout w d d' true Hlive Hlock). simpl.
  unfold DocumentWriter_dtor, unlockWriter, bind. simpl. rewrite Hdoc.
  erewrite call_unlockToRead_live by (simpl; apply lookup_insert_eq). simpl.
  unfold DocumentReader_dtor. rewrite Hdoc.
  erewrite call_unlock_live by (simpl; apply lookup_insert_eq). simpl.
  now rewrite !insert_insert_eq, log_three.
Qed.

(** X4.  A second reader made with the two-argument constructor is a
    guard of its own: when both locks are granted, the block logs two
    successful [lock] calls and two [unlock] calls, as many releases as
    acquisitions. *)
Theorem relock_scope_is_balanced
    (timeout timeout' : Z) (w : World D) (p : addr) (d d1 d2 : D) :
  heap w !! p = Some d ->
  lock ReadLock timeout d = (true, d1) ->
  lock ReadLock timeout' d1 = (true, d2) ->
  let new_calls := [CallLock p ReadLock timeout true;
                    CallLock p ReadLock timeout' true;
                    CallUnlock p; CallUnlock p] in
  (do a <- DocumentReader_new (Some p) timeout;
   do b <- DocumentReader_relock a timeout';
   do _ <- DocumentReader_dtor b;
   DocumentReader_dtor a) w
  = (Return tt,
     {| heap := <[p := unlock (unlock d2)]> (heap w);
        calls := calls w ++ new_calls |})
  /\ count_calls is_acquired new_calls = count_calls is_release new_calls.
Proof.
  intros Hlive Hlock Hlock' new_calls. split; [|reflexivity].
  unfold DocumentReader_new, bind at 1. simpl. unfold bind at 1.
  rewrite (call_lock_live p ReadLock timeout w d d1 true Hlive Hlock). simpl.
  unfold DocumentReader_relock, bind at 1. simpl. unfold bind at 1.
  erewrite call_lock_live;
    [| simpl; apply lookup_insert_eq | exact Hlock']. simpl.
  unfold bind, DocumentReader_dtor. simpl.
  erewrite call_unlock_live by (simpl; apply lookup_insert_eq). simpl.
  erewrite call_unlock_live by (simpl; apply lookup_insert_eq). simpl.
  rewrite !insert_insert_eq. unfold new_calls.
  now rewrite <- !app_assoc.
Qed.

(** X5.  When the lock for a second reader is refused, the two-argument
    constructor throws having made that one call; the reader it was to be
    copied from is untouched and its destructor still does its one
    [unlock]. *)
Theorem failed_relock_keeps_source
    (copy : DocumentReader) (timeout : Z) (w : World D)
    (p : addr) (d d' : D) :
  m_document copy = Some p ->
  heap w !! p = Some d ->
  lock ReadLock timeout d = (false, d') ->
  let w1 := {| heap := <[p := d']> (heap w);
               calls := calls w ++ [CallLock p ReadLock timeout false] |} in
  DocumentReader_relock copy timeout w = (Throw LockedDocumentException, w1)
  /\ DocumentReader_dtor copy w1
     = (Return tt,
        {| heap := <[p := unlock d']> (heap w);
           calls := calls w ++ [CallLock p ReadLock timeout false;
                                CallUnlock p] |}).
Proof.
  intros Hdoc Hlive Hfail w1. split.
  - unfold DocumentReader_relock, bind. simpl. rewrite Hdoc.
    now rewrite (call_lock_live p ReadLock timeout w d d' false Hlive Hfail).
  - unfold DocumentReader_dtor. rewrite Hdoc.
    rewrite (call_unlock_live p w1 d') by (simpl; apply lookup_insert_eq).
    simpl. now rewrite insert_insert_eq, log_two.
Qed.

(** X6.  A destroyer opened on a live document whose write lock is
    granted, used for [destroyDocument] and then destroyed, makes four
    calls in this order: [lock], [close], [unlock], [delete].  Afterwards
    the document is no longer in the heap. *)
Theorem destroyer_scope_closes_unlocks_deletes
    (context : option addr) (timeout : Z) (w : World D)
    (p : addr) (d d' : D) :
  heap w !! p = Some d ->
  lock WriteLock timeout d = (true, d') ->
  let w' := {| heap := delete p (heap w);
               calls := calls w ++ [CallLock p WriteLock timeout true;
                                    CallClose p; CallUnlock p;
                                    CallDelete p] |} in
  (do g <- DocumentDestroyer_new context (Some p) timeout;
   do g' <- destroyDocument g;
   DocumentDestroyer_dtor g') w
  = (Return tt, w')
  /\ heap w' !! p = None.
Proof.
  intros Hlive Hlock w'. split; [|apply lookup_delete_eq].
  unfold DocumentDestroyer_new, DocumentWriter_new, bind at 1. simpl.
  unfold bind at 1. unfold bind at 1.
  rewrite (call_lock_live p WriteLock timeout w d d' true Hlive Hlock). simpl.
  unfold bind at 1. unfold destroyDocument, bind at 1. simpl.
  unfold bind at 1.
  erewrite call_close_live by (simpl; apply lookup_insert_eq). simpl.
  unfold bind at 1. unfold unlockWriter, bind at 1. simpl.
  erewrite call_unlock_live by (simpl; apply lookup_insert_eq). simpl.
  unfold bind at 1.
  erewrite call_delete_live by (simpl; apply lookup_insert_eq). simpl.
  unfold w'. rewrite !delete_insert_eq. now rewrite <- !app_assoc.
Qed.

(** X7.  A writer made from a reader never calls the plain [unlock],
    in any world: its destructor leaves the number of [unlock] calls in
    the log as it was, and adds at most one [unlockToRead].  The reader's
    own lock is never discharged by the writer. *)
Theorem elevated_writer_never_unlocks
    (reader : DocumentReader) (timeout : Z) (w0 w1 w : World D)
    (this : DocumentWriter) :
  DocumentWriter_elevate reader timeout w0 = (Return this, w1) ->
  count_calls is_release (calls (snd (DocumentWriter_dtor this w)))
  = count_calls is_release (calls w)
  /\ count_calls is_downgrade (calls (snd (DocumentWriter_dtor this w)))
     <= S (count_calls is_downgrade (calls w)).
Proof.
  intros Hnew.
  destruct (DocumentWriter_elevate_fields _ _ _ _ _ Hnew) as (_ & Htag & _).
  unfold DocumentWriter_dtor, unlockWriter, bind, ret. rewrite Htag.
  destruct (m_document this) as [p|]; [|simpl; lia].
  destruct (m_locked this); [|simpl; lia].
  unfold call_unlockToRead. destruct (heap w !! p) as [d|]; [|simpl; lia].
  simpl. rewrite !count_calls_app. unfold count_calls. simpl. lia.
Qed.

(** *** Edge cases of the destroyer *)

(** A destroyer constructed over a null pointer is made without any
    call; [destroyDocument] on it stops at its [ASSERT] before [close],
    [unlock] or [delete] could run, and its destructor does nothing. *)
Theorem destroyDocument_asserts_on_null
    (context : option addr) (timeout : Z) (w : World D) :
  DocumentDestroyer_new context NULL timeout w
  = (Return (mkDestroyer DocumentWriter_default), w)
  /\ destroyDocument (mkDestroyer DocumentWriter_default) w = (AssertFail, w)
  /\ DocumentDestroyer_dtor (mkDestroyer DocumentWriter_default) w
     = (Return tt, w).
Proof. repeat split. Qed.

(** X8.  Once [destroyDocument] has returned, the object it leaves has a
    null pointer whatever it was before: a second [destroyDocument] and
    [operator->] both stop at their [ASSERT], and the destructor returns,
    each without a call and without changing the world.  The document is
    never closed or deleted twice through the same destroyer. *)
Theorem destroyDocument_only_once
    (this this' : DocumentDestroyer) (w w' w2 : World D) :
  destroyDocument this w = (Return this', w') ->
  m_document this' = NULL
  /\ destroyDocument this' w2 = (AssertFail, w2)
  /\ DocumentAccess_arrow this' w2 = (AssertFail, w2)
  /\ DocumentDestroyer_dtor this' w2 = (Return tt, w2).
Proof.
  unfold destroyDocument at 1. unfold bind, ASSERT, ret.
  destruct (m_document this) as [p|]; simpl; [|discriminate].
  destruct (call_close p w) as [[[]| | |] w3]; try discriminate.
  destruct (unlockWriter this w3) as [[this1| | |] w4]; try discriminate.
  destruct (m_document this1) as [p1|].
  - destruct (call_delete p1 w4) as [[[]| | |] w5]; try discriminate.
    intros [= <- _]. repeat split.
  - intros [= <- _]. repeat split.
Qed.

(** *** What a constructed writer looks like *)

(** X9.  Whichever of its two constructors made it, a writer has
    [m_locked] set exactly when its pointer is not null, and then the
    document it points to is live in the world the constructor left. *)
Theorem constructed_writer_is_locked_iff_it_has_a_document
    (document : option addr) (reader : DocumentReader) (timeout : Z)
    (w w1 : World D) (this : DocumentWriter) :
  DocumentWriter_new document timeout w = (Return this, w1)
  \/ DocumentWriter_elevate reader timeout w = (Return this, w1) ->
  m_locked this = not_null (m_document this)
  /\ (forall p : addr, m_document this = Some p -> is_Some (heap w1 !! p)).
Proof.
  intros [Hnew | Hnew]; revert Hnew.
  - unfold DocumentWriter_new, bind, call_lock, ret, throw. simpl.
    destruct document as [p|]; simpl.
    + destruct (heap w !! p) as [d|]; [|discriminate].
      destruct (lock WriteLock timeout d) as [[|] d']; simpl; [|discriminate].
      intros [= <- <-]. simpl. split; [reflexivity|].
      intros q [= <-]. rewrite lookup_insert_eq. now eexists.
    + intros [= <- <-]. simpl. split; [reflexivity|]. discriminate.
  - unfold DocumentWriter_elevate, bind, call_lockToWrite, ret, throw. simpl.
    destruct (m_document reader) as [p|] eqn:Hdoc; simpl.
    + destruct (heap w !! p) as [d|]; [|discriminate].
      destruct (lockToWrite timeout d) as [[|] d']; simpl; [|discriminate].
      intros [= <- <-]. simpl. rewrite Hdoc. split; [reflexivity|].
      intros q [= <-]. rewrite lookup_insert_eq. now eexists.
    + intros [= <- <-]. simpl. rewrite Hdoc. split; [reflexivity|].
      discriminate.
Qed.

(** *** Other documents *)

(** X10.  No constructor, destructor or member of a guard changes any
    document but the one the guard points to: whatever the outcome, every
    other address holds afterwards what it held before (and is as live or
    as dead as before). *)
Theorem guards_leave_other_documents
    (context document : option addr) (timeout : Z)
    (reader : DocumentReader) (writer : DocumentWriter)
    (destroyer : DocumentDestroyer) :
  leaves_others (D := D) document (DocumentReader_new document timeout)
  /\ leaves_others (D := D) document (DocumentWriter_new document timeout)
  /\ leaves_others (D := D) document
       (DocumentDestroyer_new context document timeout)
  /\ leaves_others (D := D) (m_document reader)
       (DocumentReader_relock reader timeout)
  /\ leaves_others (D := D) (m_document reader)
       (DocumentWriter_elevate reader timeout)
  /\ leaves_others (D := D) (m_document reader) (DocumentReader_dtor reader)
  /\ leaves_others (D := D) (m_document writer) (DocumentWriter_dtor writer)
  /\ leaves_others (D := D) (m_document destroyer)
       (destroyDocument destroyer).
Proof.
  assert (Hcond : forall (A : Type) (doc0 : option addr) (b : bool)
                         (e : Exception) (a : A),
             leaves_others (D := D) doc0
               (if b then throw e else ret a)).
  { intros A doc0 [|] e a;
      [apply leaves_others_throw | apply leaves_others_ret]. }
  assert (Hwriter : leaves_others (D := D) document
                      (DocumentWriter_new document timeout)).
  { unfold DocumentWriter_new. simpl.
    destruct document as [p|]; [|apply leaves_others_ret].
    apply leaves_others_bind; [apply leaves_others_call_lock|].
    intros locked. apply Hcond. }
  split; [|split; [exact Hwriter|split; [|split; [|split; [|split; [|split]]]]]].
  - unfold DocumentReader_new. simpl.
    destruct document as [p|]; [|apply leaves_others_ret].
    apply leaves_others_bind; [apply leaves_others_call_lock|].
    intros locked. apply Hcond.
  - unfold DocumentDestroyer_new.
    apply leaves_others_bind; [exact Hwriter|].
    intros base. apply leaves_others_ret.
  - unfold DocumentReader_relock. simpl.
    destruct (m_document reader) as [p|]; [|apply leaves_others_ret].
    apply leaves_others_bind; [apply leaves_others_call_lock|].
    intros locked. apply Hcond.
  - unfold DocumentWriter_elevate. simpl.
    destruct (m_document reader) as [p|]; [|apply leaves_others_ret].
    apply leaves_others_bind; [apply leaves_others_call_lockToWrite|].
    intros locked. apply Hcond.
  - unfold DocumentReader_dtor.
    destruct (m_document reader) as [p|];
      [apply leaves_others_call_unlock | apply leaves_others_ret].
  - unfold DocumentWriter_dtor.
    apply leaves_others_bind; [apply leaves_others_unlockWriter|].
    intros this1. apply leaves_others_ret.
  - intros w q Hq. unfold destroyDocument, bind at 1, ASSERT.
    destruct (m_document destroyer) as [p|] eqn:Hdoc; simpl; [|reflexivity].
    unfold bind at 1.
    pose proof (leaves_others_call_close p w q Hq) as Hclose.
    destruct (call_close p w) as [[[]| | |] w1]; simpl in *; try exact Hclose.
    unfold bind at 1.
    pose proof (leaves_others_unlockWriter destroyer w1 q) as Hunlock.
    rewrite Hdoc in Hunlock. specialize (Hunlock Hq).
    destruct (unlockWriter destroyer w1) as [[this1| | |] w2] eqn:Hrun;
      simpl in *; try (now rewrite Hunlock).
    rewrite (unlockWriter_keeps_document destroyer this1 w1 w2 Hrun), Hdoc.
    unfold bind.
    pose proof (leaves_others_call_delete p w2 q Hq) as Hdelete.
    destruct (call_delete p w2) as [[[]| | |] w3]; simpl in *;
      now rewrite Hdelete, Hunlock.
Qed.

End Scopes.

(** ** The claims on the sequential lock state *)

Section Instances.

Import LockState.

(** *** The scenarios of the specification, run *)

(** Scenario A: with one reader in, a writer's [lock] fails and the mode
    stays [Shared 1]. *)
Example scenario_A :
  let r := (do a <- DocumentReader_new (Some doc) 1000;
            DocumentWriter_new (Some doc) 100) (world_of fresh) in
  fst r = Throw LockedDocumentException
  /\ heap (snd r) !! doc = Some (shared 1).
Proof. split; reflexivity. Qed.

(** Scenario B: the sole reader is elevated; destroying the writer goes
    back to [Shared 1], destroying the reader to [Unlocked]. *)
Example scenario_B :
  let r1 := (do a <- DocumentReader_new (Some doc) 1000;
             DocumentWriter_elevate a 500) (world_of fresh) in
  let r2 := (do a <- DocumentReader_new (Some doc) 1000;
             do b <- DocumentWriter_elevate a 500;
             DocumentWriter_dtor b) (world_of fresh) in
  let r3 := (do a <- DocumentReader_new (Some doc) 1000;
             do b <- DocumentWriter_elevate a 500;
             do _ <- DocumentWriter_dtor b;
             DocumentReader_dtor a) (world_of fresh) in
  heap (snd r1) !! doc = Some exclusive
  /\ heap (snd r2) !! doc = Some (shared 1)
  /\ heap (snd r3) !! doc = Some fresh.
Proof. repeat split; reflexivity. Qed.

(** Scenario C: a writer that locked the document itself unlocks it. *)
Example scenario_C :
  let r := (do b <- DocumentWriter_new (Some doc) 100;
            DocumentWriter_dtor b) (world_of fresh) in
  snd r = {| heap := {[ doc := fresh ]};
             calls := [CallLock doc WriteLock 100 true; CallUnlock doc] |}.
Proof. reflexivity. Qed.

(** *** The theorems above, applied *)

Lemma failed_elevate_keeps_reader_witness :
  DocumentWriter_elevate reader 500 (world_of (shared 2))
  = (Throw LockedDocumentException,
     world_at (shared 2) [CallLockToWrite doc 500 false])
  /\ DocumentReader_dtor reader
       (world_at (shared 2) [CallLockToWrite doc 500 false])
     = (Return tt,
        world_at (shared 1) [CallLockToWrite doc 500 false; CallUnlock doc]).
Proof.
  destruct (failed_elevate_keeps_reader (Doc := Resource_Document)
      reader 500 (world_of (shared 2))
              doc (shared 2) (shared 2) eq_refl eq_refl eq_refl)
    as (Hthrow & _ & Hdtor).
  split; [exact Hthrow | exact Hdtor].
Defined.

Lemma copied_reader_unlocks_twice_witness :
  copy_reader_block (Some doc) 1000 (world_of (shared 1))
  = (Return tt,
     world_at fresh [CallLock doc ReadLock 1000 true;
                     CallUnlock doc; CallUnlock doc]).
Proof.
  exact (proj1 (copied_reader_unlocks_twice (Doc := Resource_Document)
      1000 (world_of (shared 1))
                  doc (shared 1) (shared 2) eq_refl eq_refl)).
Defined.

Lemma writer_release_path_witness :
  DocumentWriter_dtor (mkWriter (mkAccess (Some doc)) true true)
    (world_of exclusive)
  = (Return tt,
     world_at (shared 1) [CallUnlockToRead doc])
  /\ DocumentWriter_dtor (mkWriter (mkAccess (Some doc)) false true)
       (world_of exclusive)
     = (Return tt,
        world_at fresh [CallUnlock doc]).
Proof.
  split.
  - exact (writer_release_path (Doc := Resource_Document)
      (mkWriter (mkAccess (Some doc)) true true)
             (world_of exclusive) doc exclusive eq_refl eq_refl eq_refl).
  - exact (writer_release_path (Doc := Resource_Document)
      (mkWriter (mkAccess (Some doc)) false true)
             (world_of exclusive) doc exclusive eq_refl eq_refl eq_refl).
Defined.

Lemma destroyDocument_sequence_witness :
  exists this' : DocumentDestroyer,
    destroyDocument (mkDestroyer (mkWriter (mkAccess (Some doc)) false true))
      (world_at exclusive [CallLock doc WriteLock 100 true])
    = (Return this',
       {| heap := ∅;
          calls := [CallLock doc WriteLock 100 true; CallClose doc;
                    CallUnlock doc; CallDelete doc] |})
    /\ m_document this' = NULL.
Proof.
  destruct (destroyDocument_sequence (Doc := Resource_Document)
      None doc 100 (world_of fresh)
              (world_at exclusive [CallLock doc WriteLock 100 true])
              (world_at exclusive [CallLock doc WriteLock 100 true])
              (mkDestroyer (mkWriter (mkAccess (Some doc)) false true))
              exclusive eq_refl eq_refl)
    as (this' & Hrun & Hnull & _).
  exists this'. split; [exact Hrun | exact Hnull].
Defined.

Lemma unlockWriter_idempotent_witness :
  unlockWriter (mkWriter (mkAccess (Some doc)) false false)
    (world_at fresh [CallUnlock doc])
  = (Return (mkWriter (mkAccess (Some doc)) false false),
     world_at fresh [CallUnlock doc]).
Proof.
  exact (proj1 (unlockWriter_idempotent (Doc := Resource_Document)
                  (mkWriter (mkAccess (Some doc)) false true)
                  (mkWriter (mkAccess (Some doc)) false false)
                  (world_of exclusive)
                  (world_at fresh [CallUnlock doc])
                  eq_refl)).
Defined.

Lemma destroyer_is_direct_witness :
  m_from_reader (mkDestroyer (mkWriter (mkAccess (Some doc)) false true))
  = false
  /\ DocumentDestroyer_dtor
       (mkDestroyer (mkWriter (mkAccess (Some doc)) false true))
       (world_at exclusive [CallLock doc WriteLock 100 true])
     = (Return tt,
        world_at fresh [CallLock doc WriteLock 100 true; CallUnlock doc]).
Proof.
  destruct (destroyer_is_direct (Doc := Resource_Document)
              None (Some doc) 100 (world_of fresh)
              (world_at exclusive [CallLock doc WriteLock 100 true])
              (mkDestroyer (mkWriter (mkAccess (Some doc)) false true))
              eq_refl)
    as (Htag & _ & _ & _ & Hrelease & _).
  split; [exact Htag|].
  exact (proj1 (Hrelease doc
                  (world_at exclusive [CallLock doc WriteLock 100 true])
                  exclusive eq_refl eq_refl)).
Defined.

Lemma failed_write_open_commits_nothing_witness :
  DocumentWriter_new (Some doc) 100 (world_of (shared 1))
  = (Throw LockedDocumentException,
     world_at (shared 1) [CallLock doc WriteLock 100 false]).
Proof.
  exact (failed_write_open_commits_nothing (Doc := Resource_Document)
      100 (world_of (shared 1))
           doc (shared 1) (shared 1) eq_refl eq_refl).
Defined.

Lemma lock_failure_throws_LockedDocumentException_witness :
  fst (DocumentReader_new (Some doc) 100 (world_of exclusive))
  = Throw LockedDocumentException
  /\ fst (DocumentWriter_new (Some doc) 100 (world_of exclusive))
     = Throw LockedDocumentException
  /\ fst (DocumentWriter_elevate reader 100 (world_of exclusive))
     = Throw LockedDocumentException.
Proof.
  destruct (lock_failure_throws_LockedDocumentException (Doc := Resource_Document)
      None reader 100
              (world_of exclusive) doc exclusive eq_refl eq_refl)
    as (Hread & Hwrite & Helevate & _).
  split; [exact (proj1 (Hread eq_refl))|].
  split; [exact (proj1 (Hwrite eq_refl)) | exact (Helevate eq_refl)].
Defined.

Lemma arrow_asserts_only_on_unopened_witness :
  DocumentAccess_arrow DocumentReader_default (world_of fresh)
  = (AssertFail, world_of fresh)
  /\ DocumentAccess_arrow reader (world_of fresh)
     = (Return (Some doc), world_of fresh).
Proof.
  destruct (arrow_asserts_only_on_unopened (Doc := Resource_Document)
      (world_of fresh))
    as (_ & Hdefault & _ & Hopened & _).
  split; [exact Hdefault|].
  exact (Hopened doc 1000%Z (world_of fresh)
           (world_at (shared 1) [CallLock doc ReadLock 1000 true])
           reader eq_refl).
Defined.

Lemma null_document_is_not_locked_witness :
  DocumentWriter_new NULL 100 (world_of exclusive)
  = (Return DocumentWriter_default, world_of exclusive)
  /\ throws (fst (DocumentWriter_new (Some doc) 100 (world_of exclusive))).
Proof.
  destruct (null_document_is_not_locked (Doc := Resource_Document)
              100 (world_of exclusive))
    as ((_ & Hnull & _) & _ & _ & _ & Hthrows & _).
  split; [exact Hnull|].
  apply Hthrows. exists doc, exclusive. repeat split.
Defined.

(** C8, as the specification words it, fails: the exception a failed
    [lock] raises does not carry the one-line message. *)
Lemma locked_message_is_not_the_one_line_text :
  ~ (forall e : Exception,
       fst (DocumentWriter_new (Some doc) 100 (world_of (shared 1))) = Throw e ->
       what e
       = "resource is locked by a background task; try again later"%string).
Proof.
  intros Hclaim. specialize (Hclaim LockedDocumentException eq_refl).
  discriminate Hclaim.
Qed.

End Instances.

(** ** The scopes on the sequential lock state *)

Section ScopeInstances.

Import LockState.

Lemma reader_scope_is_balanced_witness :
  (do a <- DocumentReader_new (Some doc) 1000;
   DocumentReader_dtor a) (world_of (shared 1))
  = (Return tt,
     world_at (shared 1) [CallLock doc ReadLock 1000 true; CallUnlock doc]).
Proof.
  exact (proj2 (reader_scope_is_balanced (Doc := Resource_Document)
                  1000 (world_of (shared 1)) doc (shared 1) (shared 2)
                  eq_refl eq_refl)).
Defined.

Lemma writer_scope_is_balanced_witness :
  (do b <- DocumentWriter_new (Some doc) 100;
   DocumentWriter_dtor b) (world_of fresh)
  = (Return tt,
     world_at fresh [CallLock doc WriteLock 100 true; CallUnlock doc]).
Proof.
  exact (proj2 (writer_scope_is_balanced (Doc := Resource_Document)
                  100 (world_of fresh) doc fresh exclusive
                  eq_refl eq_refl)).
Defined.

Lemma elevate_scope_nests_witness :
  (do b <- DocumentWriter_elevate reader 500;
   do _ <- DocumentWriter_dtor b;
   DocumentReader_dtor reader) (world_of (shared 1))
  = (Return tt,
     world_at fresh [CallLockToWrite doc 500 true;
                     CallUnlockToRead doc; CallUnlock doc]).
Proof.
  exact (elevate_scope_nests (Doc := Resource_Document)
           reader 500 (world_of (shared 1)) doc (shared 1) exclusive
           eq_refl eq_refl eq_refl).
Defined.

Lemma relock_scope_is_balanced_witness :
  (do a <- DocumentReader_new (Some doc) 1000;
   do b <- DocumentReader_relock a 250;
   do _ <- DocumentReader_dtor b;
   DocumentReader_dtor a) (world_of fresh)
  = (Return tt,
     world_at fresh [CallLock doc ReadLock 1000 true;
                     CallLock doc ReadLock 250 true;
                     CallUnlock doc; CallUnlock doc]).
Proof.
  exact (proj1 (relock_scope_is_balanced (Doc := Resource_Document)
                  1000 250 (world_of fresh) doc fresh (shared 1) (shared 2)
                  eq_refl eq_refl eq_refl)).
Defined.

Lemma failed_relock_keeps_source_witness :
  DocumentReader_relock reader 250 (world_of exclusive)
  = (Throw LockedDocumentException,
     world_at exclusive [CallLock doc ReadLock 250 false]).
Proof.
  exact (proj1 (failed_relock_keeps_source (Doc := Resource_Document)
                  reader 250 (world_of exclusive) doc exclusive exclusive
                  eq_refl eq_refl eq_refl)).
Defined.

Lemma destroyer_scope_closes_unlocks_deletes_witness :
  heap (snd ((do g <- DocumentDestroyer_new None (Some doc) 100;
              do g' <- destroyDocument g;
              DocumentDestroyer_dtor g') (world_of fresh))) !! doc = None.
Proof.
  destruct (destroyer_scope_closes_unlocks_deletes (Doc := Resource_Document)
              None 100 (world_of fresh) doc fresh exclusive eq_refl eq_refl)
    as (Hrun & Hgone).
  rewrite Hrun. exact Hgone.
Defined.

Lemma elevated_writer_never_unlocks_witness :
  count_calls is_release
    (calls (snd (DocumentWriter_dtor
                   (mkWriter (mkAccess (Some doc)) true true)
                   (world_of exclusive))))
  = 0.
Proof.
  exact (proj1 (elevated_writer_never_unlocks (Doc := Resource_Document)
                  reader 500 (world_of (shared 1))
                  (world_at exclusive [CallLockToWrite doc 500 true])
                  (world_of exclusive)
                  (mkWriter (mkAccess (Some doc)) true true) eq_refl)).
Defined.

Lemma destroyDocument_only_once_witness :
  destroyDocument (mkDestroyer (mkWriter (mkAccess NULL) false false))
    (world_of fresh)
  = (AssertFail, world_of fresh).
Proof.
  exact (proj1 (proj2
    (destroyDocument_only_once (Doc := Resource_Document)
       (mkDestroyer (mkWriter (mkAccess (Some doc)) false true))
       (mkDestroyer (mkWriter (mkAccess NULL) false false))
       (world_of exclusive)
       (snd (destroyDocument
               (mkDestroyer (mkWriter (mkAccess (Some doc)) false true))
               (world_of exclusive)))
       (world_of fresh) eq_refl))).
Defined.

Lemma constructed_writer_is_locked_iff_it_has_a_document_witness :
  m_locked (mkWriter (mkAccess (Some doc)) true true) = true
  /\ m_locked (mkWriter (mkAccess NULL) false false) = false.
Proof.
  split.
  - exact (proj1 (constructed_writer_is_locked_iff_it_has_a_document
                    (Doc := Resource_Document)
                    NULL reader 500 (world_of (shared 1))
                    (world_at exclusive [CallLockToWrite doc 500 true])
                    (mkWriter (mkAccess (Some doc)) true true)
                    (or_intror eq_refl))).
  - exact (proj1 (constructed_writer_is_locked_iff_it_has_a_document
                    (Doc := Resource_Document)
                    NULL reader 100 (world_of fresh) (world_of fresh)
                    (mkWriter (mkAccess NULL) false false)
                    (or_introl eq_refl))).
Defined.

Lemma guards_leave_other_documents_witness :
  heap (snd (destroyDocument
               (mkDestroyer (mkWriter (mkAccess (Some doc)) false true))
               (world_two exclusive (shared 1)))) !! doc2
  = Some (shared 1).
Proof.
  destruct (guards_leave_other_documents (Doc := Resource_Document)
              None NULL 0 reader DocumentWriter_default
              (mkDestroyer (mkWriter (mkAccess (Some doc)) false true)))
    as (_ & _ & _ & _ & _ & _ & _ & Hdestroy).
  rewrite (Hdestroy (world_two exclusive (shared 1)) doc2);
    [reflexivity | discriminate].
Defined.

End ScopeInstances.

End app.
